(** * Reply validation and reply aggregation of the requests API

    A shallow embedding of

    - [src/api/middleware/requests/index.js]: the Express middleware
      [validateRequestReplies], and
    - [src/api/requests/requestRouter.js]: the handlers of [POST /:id],
      [GET /:id], [GET /:id/questions] and [GET /:id/replies],

    together with the properties of the reply validator and of the reply
    aggregator.  JavaScript values are a small inductive type, a property
    read on [undefined] or [null] and a rejected store promise are abrupt
    completions of an error monad, and the store (the [requestModel] module)
    is a parameter of the handlers. *)

From Stdlib Require Import List String ZArith Bool Lia.
From Stdlib Require Import DecimalString Permutation.
Import ListNotations.
Open Scope string_scope.
Open Scope list_scope.

(** ** JavaScript values *)

Module Js.

(** The values that travel through the handlers: what [JSON.parse] builds
    from a request body and what the store returns as rows.  Numbers are
    the integers of ids and counters ([NaN] has no JSON syntax). *)
#[warnings="-register-all"]
Inductive value : Type :=
| Undefined
| Null
| Bool (b : bool)
| Num (n : Z)
| Str (s : string)
| Arr (items : list value)
| Obj (fields : list (string * value)).

(** An object literal or a row: its own properties, in insertion order. *)
Definition object : Type := list (string * value).

(** [ToBoolean]: what [if (v)] and [!v] look at. *)
Definition truthy (v : value) : bool :=
  match v with
  | Undefined | Null => false
  | Bool b => b
  | Num n => negb (n =? 0)%Z
  | Str s => negb (s =? "")
  | Arr _ | Obj _ => true
  end.

(** [o.k] on an object: the value of the property, [undefined] when the
    object has no such property. *)
Fixpoint lookup (k : string) (o : object) : value :=
  match o with
  | [] => Undefined
  | (k', v) :: rest => if k' =? k then v else lookup k rest
  end.

(** [a === b].  Primitives compare by value; two objects or arrays are
    equal only when they are the same reference, which two values decoded
    from different rows or different bodies never are. *)
Definition strict_eq (a b : value) : bool :=
  match a, b with
  | Undefined, Undefined => true
  | Null, Null => true
  | Bool x, Bool y => Bool.eqb x y
  | Num x, Num y => (x =? y)%Z
  | Str x, Str y => (x =? y)
  | _, _ => false
  end.

(** What ends a computation early. *)
Inductive exn : Type :=
| TypeError
| Rejected (reason : value).

Inductive completion (A : Type) : Type :=
| Normal (a : A)
| Abrupt (e : exn).
Arguments Normal {A} a.
Arguments Abrupt {A} e.

Definition bind {A B : Type} (c : completion A) (k : A -> completion B)
  : completion B :=
  match c with
  | Normal a => k a
  | Abrupt e => Abrupt e
  end.

(** [v.k] and the destructuring [const { k } = v], for the property names
    the handlers read (none of them is a built-in of strings or arrays):
    a [TypeError] on [undefined] and [null], [undefined] on the other
    primitives and on arrays. *)
Definition get_prop (v : value) (k : string) : completion value :=
  match v with
  | Undefined | Null => Abrupt TypeError
  | Obj o => Normal (lookup k o)
  | Bool _ | Num _ | Str _ | Arr _ => Normal Undefined
  end.

(** The characters of a string, each as a string of its own. *)
Fixpoint chars (s : string) : list value :=
  match s with
  | EmptyString => []
  | String c rest => Str (String c EmptyString) :: chars rest
  end.

(** What [for (const x of v)] runs over: the items of an array, the
    characters of a string; the other values are not iterable. *)
Definition iterate (v : value) : completion (list value) :=
  match v with
  | Arr items => Normal items
  | Str s => Normal (chars s)
  | Undefined | Null | Bool _ | Num _ | Obj _ => Abrupt TypeError
  end.

End Js.

Import Js.

Declare Scope js_scope.
Delimit Scope js_scope with js.
Notation "x <- c ;; k" := (bind c (fun x => k))
  (at level 61, c at next level, right associativity) : js_scope.
Open Scope js_scope.

(** ** Express: requests and what a handler does with them *)

(** The parts of [req] the handlers read.  [params] is the object Express
    fills from the route's path; [body] is whatever the body parser left
    (possibly nothing); [profile] is what the authentication step attached. *)
Record http_request : Type := mkRequest {
  params : object;
  body : value;
  profile : value
}.

(** What a handler ends with: [res.status(s).json(b)], [next()], or
    [next(err)].  The last is what Express's layer does with an error a
    handler throws synchronously: the error goes to the error handling of
    the application, which answers in the handler's place (by default with
    a 500).  A promise that rejects without a [catch] is none of the three:
    it is an abrupt completion and nothing is sent. *)
Inductive outcome : Type :=
| Respond (status : Z) (payload : value)
| Next
| NextError (err : exn).

(** ** src/api/middleware/requests/index.js *)

(** One pass of the body of [for (const { question_id, content } of replies)]
    and the rest of the loop; falling out of the loop reaches [next()]. *)
Fixpoint check_entries (entries : list value) : completion outcome :=
  match entries with
  | [] => Normal Next
  | entry :: rest =>
      question_id <- get_prop entry "question_id" ;;
      content <- get_prop entry "content" ;;
      if negb (truthy question_id) then
        Normal (Respond 400
          (Obj [("error", Str "Every reply must include a question id")]))
      else if negb (truthy content) then
        Normal (Respond 400
          (Obj [("error", Str "Every reply must include a content value")]))
      else check_entries rest
  end.

Section Middleware.

(** [Requests.getRequestDetailed], of the store. *)
Variable getRequestDetailed : value -> completion value.

Definition validateRequestReplies (req : http_request) : completion outcome :=
  let id := lookup "id" (params req) in
  replies <- get_prop (body req) "replies" ;;
  request <- getRequestDetailed id ;;
  request_id <- get_prop request "id" ;;
  if negb (truthy request_id) then
    Normal (Respond 404
      (Obj [("error", Str "Could not find a request with that id")]))
  else if negb (truthy replies) then
    Normal (Respond 400 (Obj [("error", Str "Must include replies")]))
  else
    entries <- iterate replies ;;
    check_entries entries.

End Middleware.

(** ** src/api/requests/requestRouter.js *)

Definition internal_error : outcome :=
  Respond 500 (Obj [("message", Str "We are sorry, Internal server error.")]).

Section PostReplies.

Variable getRequestDetailed : value -> completion value.
(** [Requests.addRequestReplies], of the store. *)
Variable addRequestReplies : value -> value -> value -> completion value.

(** The three [const] lines of the handler of [router.post('/:id', ...)]:
    they run synchronously and throw on a body or a profile that is
    [undefined] or [null]. *)
Definition postRepliesReads (req : http_request)
  : completion (value * value) :=
  replies <- get_prop (body req) "replies" ;;
  profile_id <- get_prop (profile req) "id" ;;
  Normal (replies, profile_id).

(** The handler of [router.post('/:id', ...)], as Express's layer runs it.
    The handler is not an [async] function: what its first lines throw is
    caught by the layer and passed to [next(err)].  The store's promise has
    no [catch]: its rejection stays abrupt and nothing is sent. *)
Definition postRepliesHandler (req : http_request) : completion outcome :=
  let id := lookup "id" (params req) in
  match postRepliesReads req with
  | Abrupt err => Normal (NextError err)
  | Normal (replies, profile_id) =>
      requestInfo <- addRequestReplies id profile_id replies ;;
      if truthy requestInfo then Normal (Respond 200 requestInfo)
      else Normal internal_error
  end.

(** [router.post('/:id', validateRequestReplies, handler)]: the handler
    runs when the middleware called [next()]; after a response or a
    [next(err)] of the middleware it does not run. *)
Definition postReplies (req : http_request) : completion outcome :=
  gate <- validateRequestReplies getRequestDetailed req ;;
  match gate with
  | Next => postRepliesHandler req
  | Respond status payload => Normal (Respond status payload)
  | NextError err => Normal (NextError err)
  end.

End PostReplies.

(** The object the [map] callback of the aggregator returns. *)
Definition emitted_reply (reply : object) : value :=
  Obj [("id", lookup "id" reply);
       ("posted_at", lookup "posted_at" reply);
       ("iteration_id", lookup "iteration_id" reply);
       ("question_id", lookup "question_id" reply);
       ("question", lookup "question" reply);
       ("content", lookup "content" reply)].

(** The two variables the [map] callback closes over and assigns. *)
Record identity : Type := mkIdentity {
  username : value;
  userAvatarUrl : value
}.

Definition unset : identity :=
  {| username := Undefined; userAvatarUrl := Undefined |}.

(** One call of the [map] callback: the two guarded assignments. *)
Definition remember (seen : identity) (reply : object) : identity :=
  {| username :=
       if negb (truthy (username seen)) then lookup "name" reply
       else username seen;
     userAvatarUrl :=
       if negb (truthy (userAvatarUrl seen)) then lookup "avatarUrl" reply
       else userAvatarUrl seen |}.

(** [.map(callback)], front to back, threading the closed-over variables. *)
Fixpoint map_replies (seen : identity) (found : list object)
  : identity * list value :=
  match found with
  | [] => (seen, [])
  | reply :: rest =>
      let seen' := remember seen reply in
      let '(final, emitted) := map_replies seen' rest in
      (final, emitted_reply reply :: emitted)
  end.

(** [(reply) => reply.profile_id === curr] *)
Definition replied_by (curr : value) (reply : object) : bool :=
  strict_eq (lookup "profile_id" reply) curr.

(** The callback of [whoHasReplied.reduce]. *)
Definition reducer (replies : list object) (acc : list value) (curr : value)
  : list value :=
  let '(seen, foundReplies) :=
    map_replies unset (filter (replied_by curr) replies) in
  acc ++ [Obj [("profile_id", curr);
               ("name", username seen);
               ("avatarUrl", userAvatarUrl seen);
               ("replies", Arr foundReplies)]].

(** [whoHasReplied.reduce(callback, [])]: the spec's [aggregate]. *)
Definition aggregate (replies : list object) (whoHasReplied : list value)
  : list value :=
  fold_left (reducer replies) whoHasReplied [].

Section GetReplies.

(** [Requests.getRequestReplies] and [Requests.getWhoHasReplied]. *)
Variable getRequestReplies : value -> completion (list object).
Variable getWhoHasReplied : value -> completion (list value).

(** The handler of [router.get('/:id/replies', ...)]; its [catch] turns
    every abrupt completion of the chain into the 500 response. *)
Definition getReplies (req : http_request) : outcome :=
  let id := lookup "id" (params req) in
  let chain :=
    replies <- getRequestReplies id ;;
    whoHasReplied <- getWhoHasReplied id ;;
    Normal (Respond 200
      (Obj [("request_replies", Arr (aggregate replies whoHasReplied))])) in
  match chain with
  | Normal sent => sent
  | Abrupt _ => internal_error
  end.

End GetReplies.

(** [{ ...o, k: v }] on the properties of [o]: a property [k] of [o] keeps
    its place and takes the new value, otherwise [k] comes last ([k] is a
    name, not an array index, which would be ordered before the names). *)
Fixpoint set_prop (k : string) (v : value) (o : object) : object :=
  match o with
  | [] => [(k, v)]
  | (k', v') :: rest =>
      if k' =? k then (k', v) :: rest else (k', v') :: set_prop k v rest
  end.

(** The items of an array, or the characters of a string, under their
    indices. *)
Fixpoint indexed (i : nat) (items : list value) : object :=
  match items with
  | [] => []
  | item :: rest =>
      (NilEmpty.string_of_uint (Nat.to_uint i), item) :: indexed (S i) rest
  end.

(** What [...v] copies into an object literal: the own enumerable
    properties of [v]; [undefined], [null], booleans and numbers have
    none. *)
Definition spread (v : value) : object :=
  match v with
  | Obj o => o
  | Arr items => indexed 0 items
  | Str s => indexed 0 (chars s)
  | Undefined | Null | Bool _ | Num _ => []
  end.

Section GetRequest.

Variable getRequestDetailed : value -> completion value.
(** [Requests.getMemberRepliedStatus], of the store. *)
Variable getMemberRepliedStatus : value -> value -> completion value.

(** The handler of [router.get('/:id', ...)]; its [catch] turns every
    abrupt completion of the chain into the 500 response. *)
Definition getRequest (req : http_request) : outcome :=
  let id := lookup "id" (params req) in
  let chain :=
    requestInfo <- getRequestDetailed id ;;
    request_id <- get_prop requestInfo "id" ;;
    if truthy request_id then
      topic_id <- get_prop requestInfo "topic_id" ;;
      replyStatuses <- getMemberRepliedStatus id topic_id ;;
      Normal (Respond 200
        (Obj (set_prop "reply_statuses" replyStatuses (spread requestInfo))))
    else
      Normal (Respond 404
        (Obj [("message", Str "Could not find request with that id")])) in
  match chain with
  | Normal sent => sent
  | Abrupt _ => internal_error
  end.

End GetRequest.

Section GetQuestions.

(** [Requests.getRequestQuestions], of the store. *)
Variable getRequestQuestions : value -> completion value.

(** The handler of [router.get('/:id/questions', ...)]. *)
Definition getQuestions (req : http_request) : outcome :=
  let id := lookup "id" (params req) in
  match getRequestQuestions id with
  | Normal questions => Respond 200 questions
  | Abrupt _ => internal_error
  end.

End GetQuestions.

(** ** Vocabulary of the properties *)

(** The rejections of the validator, as the spec names them. *)
Definition NotFound : outcome :=
  Respond 404 (Obj [("error", Str "Could not find a request with that id")]).

Definition BadInput (message : string) : outcome :=
  Respond 400 (Obj [("error", Str message)]).

(** An entry of a reply batch that has both a truthy [question_id] and a
    truthy [content]. *)
Definition complete_entry (entry : value) : bool :=
  match entry with
  | Obj o => truthy (lookup "question_id" o) && truthy (lookup "content" o)
  | _ => false
  end.

(** The message that names the field an incomplete entry lacks; the
    question id comes first. *)
Definition missing_field (o : object) : string :=
  if truthy (lookup "question_id" o)
  then "Every reply must include a content value"
  else "Every reply must include a question id".

(** The store knows the request [req] addresses: the record it returns has
    a truthy [id]. *)
Definition request_exists (getRequestDetailed : value -> completion value)
  (req : http_request) : Prop :=
  exists record,
    getRequestDetailed (lookup "id" (params req)) = Normal (Obj record) /\
    truthy (lookup "id" record) = true.

(** The [replies] field the body of [req] carries. *)
Definition submitted (req : http_request) (replies : value) : Prop :=
  get_prop (body req) "replies" = Normal replies.

(** The first truthy value of a list and, when there is none, its last
    value: what a variable holds after [if (!x) x = v] ran over the list. *)
Definition first_truthy_or_last (vs : list value) : value :=
  match find truthy vs with
  | Some v => v
  | None => last vs Undefined
  end.

(** The group object of one member. *)
Definition group (curr name avatarUrl : value) (sent : list value) : value :=
  Obj [("profile_id", curr); ("name", name); ("avatarUrl", avatarUrl);
       ("replies", Arr sent)].

(** The group the aggregator emits for [curr]. *)
Definition member_group (replies : list object) (curr : value) : value :=
  let found := filter (replied_by curr) replies in
  group curr
    (first_truthy_or_last (map (lookup "name") found))
    (first_truthy_or_last (map (lookup "avatarUrl") found))
    (map emitted_reply found).

(** The keys of an emitted reply and of a group. *)
Definition reply_keys : list string :=
  ["id"; "posted_at"; "iteration_id"; "question_id"; "question"; "content"].

Definition group_keys : list string :=
  ["profile_id"; "name"; "avatarUrl"; "replies"].

(** The claim that a group shows the identity of the member's first reply. *)
Definition identity_of_first_reply (replies : list object)
  (whoHasReplied : list value) : Prop :=
  forall i curr first rest,
    nth_error whoHasReplied i = Some curr ->
    filter (replied_by curr) replies = first :: rest ->
    exists sent,
      nth_error (aggregate replies whoHasReplied) i =
        Some (group curr (lookup "name" first) (lookup "avatarUrl" first) sent).

(** What a guarded variable holds after the values [vs] went by. *)
Definition settle (start : value) (vs : list value) : value :=
  fold_left (fun held v => if negb (truthy held) then v else held) vs start.

(** ** Sample stores, requests and rows *)

(** A store that knows every request, and one that knows none. *)
Definition known_request (id : value) : completion value :=
  Normal (Obj [("id", Num 1); ("topic_id", Num 1);
               ("posted_at", Str "2020-09-28T00:37:22.901Z")]).

Definition unknown_request (id : value) : completion value :=
  Normal (Obj []).

(** A store that writes and returns the rows, and one whose write fails. *)
Definition written_rows : value :=
  Arr [Obj [("id", Num 1); ("iteration_id", Num 1); ("question_id", Num 1);
            ("profile_id", Str "00ulthapbErVUwVJy4x6");
            ("content", Str "String")]].

Definition store_writes (id profile_id replies : value) : completion value :=
  Normal written_rows.

Definition store_fails (id profile_id replies : value) : completion value :=
  Normal Null.

(** [POST /1] by a signed-in member, with the given body. *)
Definition post_with (sent_body : value) : http_request :=
  {| params := [("id", Str "1")];
     body := sent_body;
     profile := Obj [("id", Str "00ulthapbErVUwVJy4x6")] |}.

Definition post_of (replies : value) : http_request :=
  post_with (Obj [("replies", replies)]).

Definition answer (question_id : Z) (content : string) : object :=
  [("question_id", Num question_id); ("content", Str content)].

(** Second entry without a question id and without a content, third
    without a content. *)
Definition incomplete_batch : list object :=
  [answer 1 "Ate a sandwich"; []; [("question_id", Num 3)]].

(** Two answers to the same question. *)
Definition repeated_batch : list value :=
  [Obj (answer 1 "Ate a sandwich"); Obj (answer 1 "Making a sandwich")].

Definition row (id : Z) (profile_id : string) (name avatarUrl : value)
  (question_id : Z) (content : string) : object :=
  [("id", Num id); ("posted_at", Str "2020-09-28T00:37:22.901Z");
   ("iteration_id", Num 1); ("question_id", Num question_id);
   ("question", Str "What did you accomplish yesterday?");
   ("profile_id", Str profile_id); ("content", Str content);
   ("name", name); ("avatarUrl", avatarUrl)].

(** The rows of the spec's example, and a third row of a member nobody
    lists. *)
Definition alice_row : object := row 1 "A" (Str "Alice") (Str "a.png") 1 "x".
Definition bob_row : object := row 2 "B" (Str "Bob") (Str "b.png") 1 "y".
Definition zoe_row : object := row 3 "Z" (Str "Zoe") (Str "z.png") 1 "z".

Definition sample_replies : list object := [alice_row; bob_row; zoe_row].

(** A second row of Alice, after the rows of the others. *)
Definition alice_later_row : object :=
  row 4 "A" (Str "Alice") (Str "a.png") 2 "w".

Definition mixed_replies : list object :=
  [alice_row; bob_row; zoe_row; alice_later_row].

(** The row of Alice as another member without name and avatar would have
    written it. *)
Definition anonymous_row : object := row 1 "N" Null Null 1 "x".

(** Two rows of one member: the first carries no name and no avatar, the
    second carries both. *)
Definition blank_row : object := row 1 "A" Null Null 1 "x".
Definition named_row : object := row 2 "A" (Str "Alice") (Str "a.png") 2 "y".

Definition blank_first_replies : list object := [blank_row; named_row].

(** Every answer the validator gives of its own. *)
Definition validator_rejections : list outcome :=
  [NotFound;
   BadInput "Must include replies";
   BadInput "Every reply must include a question id";
   BadInput "Every reply must include a content value"].

(** The 404 of [GET /:id]. *)
Definition RequestNotFound : outcome :=
  Respond 404 (Obj [("message", Str "Could not find request with that id")]).

(** [undefined] and [null]. *)
Definition nullish (v : value) : bool :=
  match v with
  | Undefined | Null => true
  | _ => false
  end.

(** The replies array of a group, and the replies of all groups in a row. *)
Definition group_replies (g : value) : list value :=
  match g with
  | Obj fields =>
      match lookup "replies" fields with
      | Arr sent => sent
      | _ => []
      end
  | _ => []
  end.

Definition all_replies (groups : list value) : list value :=
  flat_map group_replies groups.

(** The name and the avatar a group shows. *)
Definition group_name (g : value) : value :=
  match g with
  | Obj fields => lookup "name" fields
  | _ => Undefined
  end.

Definition group_avatar (g : value) : value :=
  match g with
  | Obj fields => lookup "avatarUrl" fields
  | _ => Undefined
  end.

(** A store whose status query answers with the given rows. *)
Definition statuses_of (rows : value) (id topic_id : value)
  : completion value :=
  Normal rows.

Definition sample_statuses : value :=
  Arr [Obj [("id", Str "00ulthapbErVUwVJy4x6"); ("name", Str "Test001 User");
            ("avatarUrl", Null); ("has_replied", Bool true)]].

(** A store that rejects. *)
Definition store_rejects (id profile_id replies : value) : completion value :=
  Abrupt (Rejected (Str "connection lost")).

(** A body that also names a profile, and a request nobody signed. *)
Definition post_naming (profile_id : string) (replies : value)
  : http_request :=
  post_with (Obj [("profile_id", Str profile_id); ("replies", replies)]).

Definition unsigned_post (replies : value) : http_request :=
  {| params := [("id", Str "1")];
     body := Obj [("replies", replies)];
     profile := Undefined |}.

(** Two rows of one member, both without an avatar. *)
Definition plain_rows : list object :=
  [row 1 "A" (Str "Alice") Null 1 "x"; row 2 "A" (Str "Alice") Null 2 "y"].

(** ** The validator *)

Lemma complete_entry_fields entry :
  complete_entry entry = true ->
  exists o, entry = Obj o /\
    truthy (lookup "question_id" o) = true /\
    truthy (lookup "content" o) = true.
Proof.
  destruct entry as [| | b | n | s | items | o]; simpl; try discriminate.
  intros H. apply andb_prop in H. exists o. tauto.
Qed.

Lemma check_entries_complete entry rest :
  complete_entry entry = true ->
  check_entries (entry :: rest) = check_entries rest.
Proof.
  intros H. destruct (complete_entry_fields entry H) as (o & -> & Hq & Hc).
  simpl. now rewrite Hq, Hc.
Qed.

Lemma check_entries_incomplete o rest :
  complete_entry (Obj o) = false ->
  check_entries (Obj o :: rest) = Normal (BadInput (missing_field o)).
Proof.
  unfold missing_field, BadInput. simpl. intros H.
  destruct (truthy (lookup "question_id" o)); simpl in *; [| reflexivity].
  now rewrite H.
Qed.

Lemma check_entries_skips before :
  Forall (fun entry => complete_entry entry = true) before ->
  forall rest, check_entries (before ++ rest) = check_entries rest.
Proof.
  induction 1 as [| entry before Hentry _ IH]; intros rest; [reflexivity |].
  rewrite <- app_comm_cons, check_entries_complete by assumption. apply IH.
Qed.

Lemma check_entries_all_complete entries :
  Forall (fun entry => complete_entry entry = true) entries ->
  check_entries entries = Normal Next.
Proof.
  intros H. rewrite <- (app_nil_r entries). now rewrite check_entries_skips.
Qed.

(** A batch with an incomplete entry splits at the first one. *)
Lemma first_incomplete (batch : list object) :
  Exists (fun o => complete_entry (Obj o) = false) batch ->
  exists before o after,
    batch = before ++ o :: after /\
    Forall (fun o' => complete_entry (Obj o') = true) before /\
    complete_entry (Obj o) = false.
Proof.
  induction batch as [| o batch IH]; intros H; [inversion H |].
  destruct (complete_entry (Obj o)) eqn:Ho.
  - destruct IH as (before & o' & after & -> & Hbefore & Ho').
    + inversion H; subst; [congruence | assumption].
    + exists (o :: before), o', after. repeat split; auto.
  - exists [], o, batch. repeat split; auto.
Qed.

Section ValidatorProperties.

Variable getRequestDetailed : value -> completion value.

(** Past the two guards the validator is the loop over the entries. *)
Lemma validate_reaches_entries req replies :
  request_exists getRequestDetailed req ->
  submitted req replies ->
  truthy replies = true ->
  validateRequestReplies getRequestDetailed req =
    (entries <- iterate replies ;; check_entries entries).
Proof.
  intros (record & Hstore & Hid) Hbody Hreplies.
  unfold validateRequestReplies, submitted in *.
  rewrite Hbody; simpl. rewrite Hstore; simpl.
  now rewrite Hid, Hreplies.
Qed.

(** X24: against an existing request, a batch of objects with an entry
    that lacks a question id or a content is answered with the 400 that
    names the field the first such entry lacks (the question id before the
    content), and whatever follows that entry is not looked at: the answer
    is the same for every continuation of the batch, also one that could
    not be processed at all. *)
Theorem validate_rejects_first_incomplete_entry req (batch : list object) :
  request_exists getRequestDetailed req ->
  submitted req (Arr (map Obj batch)) ->
  Exists (fun o => complete_entry (Obj o) = false) batch ->
  exists before o after,
    batch = before ++ o :: after /\
    Forall (fun o' => complete_entry (Obj o') = true) before /\
    complete_entry (Obj o) = false /\
    validateRequestReplies getRequestDetailed req =
      Normal (BadInput (missing_field o)) /\
    forall req' (after' : list value),
      params req' = params req ->
      submitted req' (Arr (map Obj before ++ Obj o :: after')) ->
      validateRequestReplies getRequestDetailed req' =
        Normal (BadInput (missing_field o)).
Proof.
  intros Hreq Hbody Hbad.
  destruct (first_incomplete batch Hbad) as (before & o & after & -> & Hb & Ho).
  exists before, o, after. repeat split; auto.
  - rewrite (validate_reaches_entries req _ Hreq Hbody eq_refl). simpl.
    rewrite map_app. simpl. rewrite check_entries_skips.
    + now apply check_entries_incomplete.
    + apply Forall_map. exact Hb.
  - intros req' after' Hparams Hbody'.
    assert (Hreq' : request_exists getRequestDetailed req').
    { unfold request_exists in *. now rewrite Hparams. }
    rewrite (validate_reaches_entries req' _ Hreq' Hbody' eq_refl). simpl.
    rewrite check_entries_skips.
    + now apply check_entries_incomplete.
    + apply Forall_map. exact Hb.
Qed.

(** C4: when the record the store returns has a falsy id, the answer is the
    404, whatever the body carries as replies. *)
Theorem validate_not_found_first req record replies :
  getRequestDetailed (lookup "id" (params req)) = Normal (Obj record) ->
  truthy (lookup "id" record) = false ->
  submitted req replies ->
  validateRequestReplies getRequestDetailed req = Normal NotFound.
Proof.
  intros Hstore Hid Hbody. unfold validateRequestReplies, submitted in *.
  rewrite Hbody; simpl. rewrite Hstore; simpl. now rewrite Hid.
Qed.

(** C5: against an existing request, a body without a [replies] field is
    answered with the 400 that asks for replies. *)
Theorem validate_missing_replies req :
  request_exists getRequestDetailed req ->
  submitted req Undefined ->
  validateRequestReplies getRequestDetailed req =
    Normal (BadInput "Must include replies").
Proof.
  intros (record & Hstore & Hid) Hbody.
  unfold validateRequestReplies, submitted in *.
  rewrite Hbody; simpl. rewrite Hstore; simpl. now rewrite Hid.
Qed.

(** C7: against an existing request, a batch whose entries all have a truthy
    question id and a truthy content passes the gate; nothing is asked of
    the entries together (question ids may repeat) nor of the questions of
    the request. *)
Theorem validate_accepts_complete_batch req entries :
  request_exists getRequestDetailed req ->
  submitted req (Arr entries) ->
  Forall (fun entry => complete_entry entry = true) entries ->
  validateRequestReplies getRequestDetailed req = Normal Next.
Proof.
  intros Hreq Hbody Hall.
  rewrite (validate_reaches_entries req _ Hreq Hbody eq_refl). simpl.
  now apply check_entries_all_complete.
Qed.

Variable addRequestReplies : value -> value -> value -> completion value.

(** C10: against an existing request, the empty array passes the gate (it
    is not taken for a missing field) and the write handler runs. *)
Theorem validate_accepts_empty_batch req :
  request_exists getRequestDetailed req ->
  submitted req (Arr []) ->
  validateRequestReplies getRequestDetailed req = Normal Next /\
  postReplies getRequestDetailed addRequestReplies req =
    postRepliesHandler addRequestReplies req.
Proof.
  intros Hreq Hbody.
  assert (Hnext : validateRequestReplies getRequestDetailed req = Normal Next).
  { now rewrite (validate_reaches_entries req _ Hreq Hbody eq_refl). }
  split; [exact Hnext |]. unfold postReplies. now rewrite Hnext.
Qed.


End ValidatorProperties.

(** ** The aggregator *)

Lemma last_shift (vs : list value) :
  forall v d, last (v :: vs) d = last vs v.
Proof.
  induction vs as [| w vs IH]; intros v d; [reflexivity |].
  change (last (v :: w :: vs) d) with (last (w :: vs) d).
  now rewrite !IH.
Qed.

Lemma settle_spec vs :
  forall start,
    settle start vs =
      if truthy start then start
      else match find truthy vs with
           | Some v => v
           | None => last vs start
           end.
Proof.
  unfold settle.
  induction vs as [| v vs IH]; intros start; simpl fold_left.
  - now destruct (truthy start).
  - rewrite IH. destruct (truthy start) eqn:Hstart; simpl negb; cbv iota.
    + now rewrite Hstart.
    + simpl find. destruct (truthy v) eqn:Hv; [reflexivity |].
      destruct (find truthy vs); [reflexivity |]. symmetry. apply last_shift.
Qed.

Lemma settle_unset vs : settle Undefined vs = first_truthy_or_last vs.
Proof. now rewrite settle_spec. Qed.

Lemma map_replies_emitted found :
  forall seen, snd (map_replies seen found) = map emitted_reply found.
Proof.
  induction found as [| reply found IH]; intros seen; simpl; [reflexivity |].
  specialize (IH (remember seen reply)).
  destruct (map_replies (remember seen reply) found). simpl in *. now f_equal.
Qed.

Lemma map_replies_seen found :
  forall seen,
    username (fst (map_replies seen found)) =
      settle (username seen) (map (lookup "name") found) /\
    userAvatarUrl (fst (map_replies seen found)) =
      settle (userAvatarUrl seen) (map (lookup "avatarUrl") found).
Proof.
  induction found as [| reply found IH]; intros seen; simpl; [now split |].
  specialize (IH (remember seen reply)).
  destruct (map_replies (remember seen reply) found). simpl in *. exact IH.
Qed.

Lemma reducer_pushes replies acc curr :
  reducer replies acc curr = acc ++ [member_group replies curr].
Proof.
  unfold reducer, member_group, group.
  pose proof (map_replies_emitted (filter (replied_by curr) replies) unset) as E.
  pose proof (map_replies_seen (filter (replied_by curr) replies) unset) as S.
  destruct (map_replies unset (filter (replied_by curr) replies)) as [seen sent].
  simpl in E, S. destruct S as [Sn Sa].
  now rewrite E, Sn, Sa, !settle_unset.
Qed.

Lemma fold_reducer replies whoHasReplied :
  forall acc,
    fold_left (reducer replies) whoHasReplied acc =
      acc ++ map (member_group replies) whoHasReplied.
Proof.
  induction whoHasReplied as [| curr who IH]; intros acc; simpl.
  - now rewrite app_nil_r.
  - now rewrite IH, reducer_pushes, <- app_assoc.
Qed.

(** The aggregator is a [map] over [whoHasReplied]. *)
Lemma aggregate_map replies whoHasReplied :
  aggregate replies whoHasReplied = map (member_group replies) whoHasReplied.
Proof. unfold aggregate. now rewrite fold_reducer. Qed.

Lemma first_truthy_or_last_head v vs :
  truthy v = true -> first_truthy_or_last (v :: vs) = v.
Proof. unfold first_truthy_or_last. simpl. now intros ->. Qed.

Lemma emitted_reply_keys reply :
  exists fields, emitted_reply reply = Obj fields /\ map fst fields = reply_keys.
Proof. eexists. split; reflexivity. Qed.

Lemma filter_drops_unmatched curr (before after : list object) r :
  replied_by curr r = false ->
  filter (replied_by curr) (before ++ r :: after) =
    filter (replied_by curr) (before ++ after).
Proof. intros H. rewrite !filter_app. simpl. now rewrite H. Qed.

(** C1, as the code has it: the group of a member with a matching reply
    shows, as name, the name of the first matching reply whose name is
    truthy and, when none is, that of the last matching reply; the avatar
    likewise, on its own.  When the first matching reply has a truthy name
    (avatar), it is the one shown and those of the later replies are
    dropped. *)
Theorem group_identity_first_truthy replies whoHasReplied i curr first rest :
  nth_error whoHasReplied i = Some curr ->
  filter (replied_by curr) replies = first :: rest ->
  exists name avatarUrl,
    nth_error (aggregate replies whoHasReplied) i =
      Some (group curr name avatarUrl (map emitted_reply (first :: rest))) /\
    name = first_truthy_or_last (map (lookup "name") (first :: rest)) /\
    avatarUrl =
      first_truthy_or_last (map (lookup "avatarUrl") (first :: rest)) /\
    (truthy (lookup "name" first) = true -> name = lookup "name" first) /\
    (truthy (lookup "avatarUrl" first) = true ->
     avatarUrl = lookup "avatarUrl" first).
Proof.
  intros Hi Hfound. do 2 eexists. rewrite aggregate_map.
  split; [| split; [reflexivity | split; [reflexivity |]]].
  - rewrite (map_nth_error _ _ _ Hi). unfold member_group.
    now rewrite Hfound.
  - split; intros H; simpl map; now apply first_truthy_or_last_head.
Qed.

(** C2: one group per id of [whoHasReplied], in that order.  The group at
    the place of an id carries that id and, as replies, the rows whose
    profile_id is [===] the id, in input order, each reduced to id,
    posted_at, iteration_id, question_id, question and content; its name
    and avatar are the first truthy ones of these rows or the last.  A
    member without a matching row gets an empty array and an undefined name
    and avatar; nothing in gives nothing out. *)
Theorem aggregate_one_group_per_member replies whoHasReplied :
  List.length (aggregate replies whoHasReplied) = List.length whoHasReplied /\
  (forall i curr,
     nth_error whoHasReplied i = Some curr ->
     let found :=
       filter (fun reply => strict_eq (lookup "profile_id" reply) curr)
         replies in
     nth_error (aggregate replies whoHasReplied) i =
       Some (Obj [("profile_id", curr);
                  ("name", first_truthy_or_last (map (lookup "name") found));
                  ("avatarUrl",
                   first_truthy_or_last (map (lookup "avatarUrl") found));
                  ("replies",
                   Arr (map (fun reply =>
                               Obj [("id", lookup "id" reply);
                                    ("posted_at", lookup "posted_at" reply);
                                    ("iteration_id",
                                     lookup "iteration_id" reply);
                                    ("question_id",
                                     lookup "question_id" reply);
                                    ("question", lookup "question" reply);
                                    ("content", lookup "content" reply)])
                          found))]) /\
     (found = [] ->
      nth_error (aggregate replies whoHasReplied) i =
        Some (Obj [("profile_id", curr); ("name", Undefined);
                   ("avatarUrl", Undefined); ("replies", Arr [])]))) /\
  aggregate [] [] = [].
Proof.
  rewrite aggregate_map. split; [apply List.length_map |].
  split; [| reflexivity].
  intros i curr Hi found.
  assert (Hgroup :
    nth_error (map (member_group replies) whoHasReplied) i =
      Some (member_group replies curr)) by exact (map_nth_error _ _ _ Hi).
  split; [exact Hgroup |].
  intros Hnone. rewrite Hgroup. unfold member_group.
  change (filter (replied_by curr) replies) with found.
  now rewrite Hnone.
Qed.

(** C6: every group has the keys profile_id, name, avatarUrl and replies,
    and every reply inside a group has the keys id, posted_at, iteration_id,
    question_id, question and content and no other: none of profile_id,
    name and avatarUrl. *)
Theorem emitted_replies_carry_no_identity replies whoHasReplied g :
  In g (aggregate replies whoHasReplied) ->
  exists fields sent,
    g = Obj fields /\
    map fst fields = group_keys /\
    lookup "replies" fields = Arr sent /\
    forall e, In e sent ->
      exists reply_fields,
        e = Obj reply_fields /\
        map fst reply_fields = reply_keys /\
        ~ In "profile_id" (map fst reply_fields) /\
        ~ In "name" (map fst reply_fields) /\
        ~ In "avatarUrl" (map fst reply_fields).
Proof.
  rewrite aggregate_map, in_map_iff. intros (curr & <- & _).
  do 2 eexists. split; [reflexivity |]. split; [reflexivity |].
  split; [reflexivity |].
  intros e He. apply in_map_iff in He. destruct He as (reply & <- & _).
  destruct (emitted_reply_keys reply) as (fs & -> & Hkeys).
  exists fs. rewrite Hkeys. split; [reflexivity |]. split; [reflexivity |].
  unfold reply_keys. simpl.
  repeat split; intros H; repeat destruct H as [H | H]; discriminate || exact H.
Qed.

(** C9: the id of every group is one of [whoHasReplied] and every reply in
    the group is the emitted form of an input reply with that id; an input
    reply whose id is none of [whoHasReplied] leaves no trace: the output
    is what it is without that reply. *)
Theorem unmatched_replies_absent replies whoHasReplied :
  (forall g, In g (aggregate replies whoHasReplied) ->
     exists curr fields sent,
       g = Obj fields /\
       lookup "profile_id" fields = curr /\
       In curr whoHasReplied /\
       lookup "replies" fields = Arr sent /\
       forall e, In e sent ->
         exists reply,
           In reply replies /\ replied_by curr reply = true /\
           e = emitted_reply reply) /\
  (forall before reply after,
     replies = before ++ reply :: after ->
     (forall curr, In curr whoHasReplied -> replied_by curr reply = false) ->
     aggregate replies whoHasReplied =
       aggregate (before ++ after) whoHasReplied).
Proof.
  split.
  - rewrite aggregate_map. intros g Hg. apply in_map_iff in Hg.
    destruct Hg as (curr & <- & Hcurr).
    exists curr. do 2 eexists. split; [reflexivity |].
    split; [reflexivity |]. split; [exact Hcurr |]. split; [reflexivity |].
    intros e He. apply in_map_iff in He. destruct He as (reply & <- & Hin).
    apply filter_In in Hin. exists reply. tauto.
  - intros before reply after -> Hnone. rewrite !aggregate_map.
    apply map_ext_in. intros curr Hcurr. unfold member_group.
    now rewrite (filter_drops_unmatched curr before after reply (Hnone _ Hcurr)).
Qed.

(** ** The handlers on the sample data *)

Example validate_names_question_id_first :
  validateRequestReplies known_request
    (post_of (Arr (map Obj incomplete_batch))) =
  Normal (BadInput "Every reply must include a question id").
Proof. reflexivity. Qed.

Example validate_names_content :
  validateRequestReplies known_request
    (post_of (Arr [Obj (answer 1 "a"); Obj [("question_id", Num 3)]; Null])) =
  Normal (BadInput "Every reply must include a content value").
Proof. reflexivity. Qed.

(** C3: against an existing request, the batch
    [[{question_id: 1, content: "a"}, null, {}]] has entries without a
    question id and is not answered with a 400: destructuring its second
    entry throws and the middleware sends nothing.  The same batch with [0]
    in the place of [null], just as little a reply, gets the 400 for the
    question id. *)
Theorem validate_null_entry_unanswered :
  validateRequestReplies known_request
    (post_of (Arr [Obj (answer 1 "a"); Null; Obj []])) = Abrupt TypeError /\
  (forall message,
     validateRequestReplies known_request
       (post_of (Arr [Obj (answer 1 "a"); Null; Obj []])) <>
     Normal (BadInput message)) /\
  validateRequestReplies known_request
    (post_of (Arr [Obj (answer 1 "a"); Num 0; Obj []])) =
  Normal (BadInput "Every reply must include a question id").
Proof.
  split; [reflexivity |]. split; [| reflexivity].
  intros message H. discriminate H.
Qed.

(** An entry that is [null] cannot be destructured: the middleware throws. *)
Example validate_throws_on_null_entry :
  validateRequestReplies known_request (post_of (Arr [Null])) =
  Abrupt TypeError.
Proof. reflexivity. Qed.

(** Without a body object the middleware throws before it asks the store. *)
Example validate_throws_without_body :
  validateRequestReplies unknown_request (post_with Undefined) =
  Abrupt TypeError.
Proof. reflexivity. Qed.

(** The example of the spec: the order of [whoHasReplied] decides. *)
Example aggregate_spec_example :
  aggregate [alice_row; bob_row] [Str "B"; Str "A"] =
  [group (Str "B") (Str "Bob") (Str "b.png") [emitted_reply bob_row];
   group (Str "A") (Str "Alice") (Str "a.png") [emitted_reply alice_row]].
Proof. reflexivity. Qed.

Example aggregate_blank_first :
  aggregate blank_first_replies [Str "A"] =
  [group (Str "A") (Str "Alice") (Str "a.png")
     [emitted_reply blank_row; emitted_reply named_row]].
Proof. reflexivity. Qed.

Example getReplies_sends_groups :
  getReplies (fun _ => Normal [alice_row]) (fun _ => Normal [Str "A"])
    (post_with Undefined) =
  Respond 200
    (Obj [("request_replies",
           Arr [group (Str "A") (Str "Alice") (Str "a.png")
                  [emitted_reply alice_row]])]).
Proof. reflexivity. Qed.

Example getReplies_store_failure :
  getReplies (fun _ => Abrupt (Rejected Null)) (fun _ => Normal [])
    (post_with Undefined) = internal_error.
Proof. reflexivity. Qed.

(** C1 as the spec words it fails on rows whose first carries no name: the
    group shows the name and the avatar of the second row. *)
Lemma first_reply_identity_not_kept :
  ~ identity_of_first_reply blank_first_replies [Str "A"].
Proof.
  intros H.
  destruct (H 0%nat (Str "A") blank_row [named_row] eq_refl eq_refl)
    as [sent Hsent].
  vm_compute in Hsent. discriminate Hsent.
Qed.

Lemma group_identity_first_truthy_witness :
  exists name avatarUrl,
    nth_error (aggregate blank_first_replies [Str "A"]) 0 =
      Some (group (Str "A") name avatarUrl
              (map emitted_reply [blank_row; named_row])) /\
    name = first_truthy_or_last (map (lookup "name") [blank_row; named_row]) /\
    avatarUrl =
      first_truthy_or_last (map (lookup "avatarUrl") [blank_row; named_row]) /\
    (truthy (lookup "name" blank_row) = true ->
     name = lookup "name" blank_row) /\
    (truthy (lookup "avatarUrl" blank_row) = true ->
     avatarUrl = lookup "avatarUrl" blank_row).
Proof.
  apply (group_identity_first_truthy blank_first_replies [Str "A"] 0
           (Str "A") blank_row [named_row]); reflexivity.
Defined.

Lemma aggregate_one_group_per_member_witness :
  List.length (aggregate mixed_replies [Str "B"; Str "C"; Str "A"]) = 3%nat /\
  nth_error (aggregate mixed_replies [Str "B"; Str "C"; Str "A"]) 2 =
    Some (Obj [("profile_id", Str "A"); ("name", Str "Alice");
               ("avatarUrl", Str "a.png");
               ("replies",
                Arr [Obj [("id", Num 1);
                          ("posted_at", Str "2020-09-28T00:37:22.901Z");
                          ("iteration_id", Num 1); ("question_id", Num 1);
                          ("question",
                           Str "What did you accomplish yesterday?");
                          ("content", Str "x")];
                     Obj [("id", Num 4);
                          ("posted_at", Str "2020-09-28T00:37:22.901Z");
                          ("iteration_id", Num 1); ("question_id", Num 2);
                          ("question",
                           Str "What did you accomplish yesterday?");
                          ("content", Str "w")]])]) /\
  nth_error (aggregate mixed_replies [Str "B"; Str "C"; Str "A"]) 1 =
    Some (Obj [("profile_id", Str "C"); ("name", Undefined);
               ("avatarUrl", Undefined); ("replies", Arr [])]).
Proof.
  destruct (aggregate_one_group_per_member mixed_replies
              [Str "B"; Str "C"; Str "A"]) as (Hlength & Hgroups & _).
  split; [exact Hlength |]. split.
  - exact (proj1 (Hgroups 2%nat (Str "A") eq_refl)).
  - exact (proj2 (Hgroups 1%nat (Str "C") eq_refl) eq_refl).
Defined.

Lemma validate_rejects_first_incomplete_entry_witness :
  exists before o after,
    incomplete_batch = before ++ o :: after /\
    Forall (fun o' => complete_entry (Obj o') = true) before /\
    complete_entry (Obj o) = false /\
    validateRequestReplies known_request
      (post_of (Arr (map Obj incomplete_batch))) =
      Normal (BadInput (missing_field o)) /\
    forall req' (after' : list value),
      params req' = params (post_of (Arr (map Obj incomplete_batch))) ->
      submitted req' (Arr (map Obj before ++ Obj o :: after')) ->
      validateRequestReplies known_request req' =
        Normal (BadInput (missing_field o)).
Proof.
  apply (validate_rejects_first_incomplete_entry known_request
           (post_of (Arr (map Obj incomplete_batch))) incomplete_batch).
  - eexists. split; reflexivity.
  - reflexivity.
  - apply Exists_cons_tl, Exists_cons_hd. reflexivity.
Defined.

Lemma validate_not_found_first_witness :
  validateRequestReplies unknown_request (post_of (Arr [Null])) =
  Normal NotFound.
Proof.
  apply (validate_not_found_first unknown_request (post_of (Arr [Null]))
           [] (Arr [Null])); reflexivity.
Defined.

Lemma validate_missing_replies_witness :
  validateRequestReplies known_request (post_with (Obj [])) =
  Normal (BadInput "Must include replies").
Proof.
  apply (validate_missing_replies known_request (post_with (Obj []))).
  - eexists. split; reflexivity.
  - reflexivity.
Defined.

Lemma emitted_replies_carry_no_identity_witness :
  exists fields sent,
    group (Str "A") (Str "Alice") (Str "a.png") [emitted_reply alice_row] =
      Obj fields /\
    map fst fields = group_keys /\
    lookup "replies" fields = Arr sent /\
    forall e, In e sent ->
      exists reply_fields,
        e = Obj reply_fields /\
        map fst reply_fields = reply_keys /\
        ~ In "profile_id" (map fst reply_fields) /\
        ~ In "name" (map fst reply_fields) /\
        ~ In "avatarUrl" (map fst reply_fields).
Proof.
  apply (emitted_replies_carry_no_identity sample_replies [Str "B"; Str "A"]).
  right. left. reflexivity.
Defined.

Lemma validate_accepts_complete_batch_witness :
  validateRequestReplies known_request (post_of (Arr repeated_batch)) =
  Normal Next.
Proof.
  apply (validate_accepts_complete_batch known_request
           (post_of (Arr repeated_batch)) repeated_batch).
  - eexists. split; reflexivity.
  - reflexivity.
  - repeat constructor.
Defined.


Lemma unmatched_replies_absent_witness :
  aggregate sample_replies [Str "B"; Str "A"] =
  aggregate [alice_row; bob_row] [Str "B"; Str "A"].
Proof.
  destruct (unmatched_replies_absent sample_replies [Str "B"; Str "A"])
    as [_ Habsent].
  apply (Habsent [alice_row; bob_row] zoe_row []); [reflexivity |].
  intros curr [<- | [<- | []]]; reflexivity.
Defined.

Lemma validate_accepts_empty_batch_witness :
  validateRequestReplies known_request (post_of (Arr [])) = Normal Next /\
  postReplies known_request store_writes (post_of (Arr [])) =
    postRepliesHandler store_writes (post_of (Arr [])).
Proof.
  apply (validate_accepts_empty_batch known_request store_writes
           (post_of (Arr []))).
  - eexists. split; reflexivity.
  - reflexivity.
Defined.

(** ** More on the validator *)

Lemma check_entries_nullish before entry after :
  Forall (fun e => complete_entry e = true) before ->
  nullish entry = true ->
  check_entries (before ++ entry :: after) = Abrupt TypeError.
Proof.
  intros Hbefore Hentry. rewrite check_entries_skips by assumption.
  destruct entry; simpl in Hentry; try discriminate; reflexivity.
Qed.

Lemma check_entries_next entries :
  check_entries entries = Normal Next ->
  Forall (fun e => complete_entry e = true) entries.
Proof.
  induction entries as [| entry entries IH]; intros H; [constructor |].
  destruct entry as [| | b | n | s | items | o]; simpl in H; try discriminate.
  destruct (truthy (lookup "question_id" o)) eqn:Hq; simpl in H;
    [| discriminate].
  destruct (truthy (lookup "content" o)) eqn:Hc; simpl in H; [| discriminate].
  constructor; [simpl; now rewrite Hq, Hc | now apply IH].
Qed.

Lemma check_entries_rejections entries status payload :
  check_entries entries = Normal (Respond status payload) ->
  In (Respond status payload) validator_rejections.
Proof.
  induction entries as [| entry entries IH]; intros H; [discriminate |].
  destruct entry as [| | b | n | s | items | o]; simpl in H;
    try discriminate;
    try (injection H as <- <-; simpl; tauto).
  destruct (truthy (lookup "question_id" o)); simpl in H;
    [| injection H as <- <-; simpl; tauto].
  destruct (truthy (lookup "content" o)); simpl in H;
    [now apply IH | injection H as <- <-; simpl; tauto].
Qed.

Lemma check_entries_status entries status payload :
  check_entries entries = Normal (Respond status payload) -> status = 400%Z.
Proof.
  induction entries as [| entry entries IH]; intros H; [discriminate |].
  destruct entry as [| | b | n | s | items | o]; simpl in H;
    try discriminate; try (now injection H).
  destruct (truthy (lookup "question_id" o)); simpl in H;
    [| now injection H].
  destruct (truthy (lookup "content" o)); simpl in H;
    [now apply IH | now injection H].
Qed.

Lemma check_entries_chars s :
  s <> "" ->
  check_entries (chars s) =
    Normal (BadInput "Every reply must include a question id").
Proof. destruct s; [congruence | reflexivity]. Qed.

Section ValidatorEdges.

Variable getRequestDetailed : value -> completion value.

(** X1: the validator calls [next()] only for an existing request and a
    [replies] array in which every entry is an object with a truthy question
    id and a truthy content. *)
Theorem gate_passes_only_complete_batches req :
  validateRequestReplies getRequestDetailed req = Normal Next ->
  request_exists getRequestDetailed req /\
  exists entries,
    submitted req (Arr entries) /\
    Forall (fun e => complete_entry e = true) entries.
Proof.
  unfold validateRequestReplies, request_exists, submitted.
  destruct (get_prop (body req) "replies") as [replies |]; simpl;
    [| discriminate].
  destruct (getRequestDetailed (lookup "id" (params req))) as [record |];
    simpl; [| discriminate].
  destruct record as [| | b | n | s | items | record]; simpl;
    try discriminate.
  destruct (truthy (lookup "id" record)) eqn:Hid; simpl; [| discriminate].
  destruct (truthy replies) eqn:Hreplies; simpl; [| discriminate].
  intros H. split; [now exists record |].
  destruct replies as [| | b | n | s | items | o]; simpl in H;
    try discriminate.
  - rewrite check_entries_chars in H; [discriminate |].
    intros ->. discriminate Hreplies.
  - exists items. split; [reflexivity | now apply check_entries_next].
Qed.

(** X2: whatever the validator answers of its own is the 404 or one of the
    three 400s. *)
Theorem validator_answers req status payload :
  validateRequestReplies getRequestDetailed req =
    Normal (Respond status payload) ->
  In (Respond status payload) validator_rejections.
Proof.
  unfold validateRequestReplies.
  destruct (get_prop (body req) "replies") as [replies |]; simpl;
    [| discriminate].
  destruct (getRequestDetailed (lookup "id" (params req))) as [record |];
    simpl; [| discriminate].
  destruct (get_prop record "id") as [request_id |]; simpl; [| discriminate].
  destruct (truthy request_id); simpl;
    [| intros H; injection H as <- <-; simpl; tauto].
  destruct (truthy replies); simpl;
    [| intros H; injection H as <- <-; simpl; tauto].
  destruct (iterate replies) as [entries |]; simpl; [| discriminate].
  apply check_entries_rejections.
Qed.

(** X3: against an existing request every falsy [replies] ([null], [false],
    [0], the empty string, as well as a missing field) is answered with the
    400 that asks for replies. *)
Theorem validate_falsy_replies req replies :
  request_exists getRequestDetailed req ->
  submitted req replies ->
  truthy replies = false ->
  validateRequestReplies getRequestDetailed req =
    Normal (BadInput "Must include replies").
Proof.
  intros (record & Hstore & Hid) Hbody Hreplies.
  unfold validateRequestReplies, submitted in *.
  rewrite Hbody; simpl. rewrite Hstore; simpl. now rewrite Hid, Hreplies.
Qed.

(** X4: against an existing request a truthy [replies] that is neither an
    array nor a string (a number, [true], an object) is not answered: the loop
    header throws. *)
Theorem validate_throws_on_non_iterable req replies :
  request_exists getRequestDetailed req ->
  submitted req replies ->
  truthy replies = true ->
  (forall items, replies <> Arr items) ->
  (forall s, replies <> Str s) ->
  validateRequestReplies getRequestDetailed req = Abrupt TypeError.
Proof.
  intros Hreq Hbody Hreplies Harr Hstr.
  rewrite (validate_reaches_entries _ req replies Hreq Hbody Hreplies).
  destruct replies as [| | b | n | s | items | o]; try reflexivity.
  - now contradiction (Hstr s).
  - now contradiction (Harr items).
Qed.

(** X5: against an existing request a non-empty string as [replies] is read
    character by character and answered with the 400 for the question id. *)
Theorem validate_string_replies req s :
  request_exists getRequestDetailed req ->
  submitted req (Str s) ->
  s <> "" ->
  validateRequestReplies getRequestDetailed req =
    Normal (BadInput "Every reply must include a question id").
Proof.
  intros Hreq Hbody Hs.
  assert (Htruthy : truthy (Str s) = true).
  { simpl. destruct s; [congruence | reflexivity]. }
  rewrite (validate_reaches_entries _ req _ Hreq Hbody Htruthy). simpl.
  now apply check_entries_chars.
Qed.

(** X6: against an existing request a batch whose first entry that is not
    complete is [null] or [undefined] is not answered: destructuring the entry
    throws, whatever follows it. *)
Theorem validate_throws_on_nullish_entry req before entry after :
  request_exists getRequestDetailed req ->
  submitted req (Arr (before ++ entry :: after)) ->
  Forall (fun e => complete_entry e = true) before ->
  nullish entry = true ->
  validateRequestReplies getRequestDetailed req = Abrupt TypeError.
Proof.
  intros Hreq Hbody Hbefore Hentry.
  rewrite (validate_reaches_entries _ req _ Hreq Hbody eq_refl). simpl.
  now apply check_entries_nullish.
Qed.

(** X7: against an existing request a batch whose first entry that is not
    complete is a number, a boolean, a string or an array is answered with the
    400 for the question id: such an entry has no fields. *)
Theorem validate_fieldless_entry req before entry after :
  request_exists getRequestDetailed req ->
  submitted req (Arr (before ++ entry :: after)) ->
  Forall (fun e => complete_entry e = true) before ->
  nullish entry = false ->
  (forall o, entry <> Obj o) ->
  validateRequestReplies getRequestDetailed req =
    Normal (BadInput "Every reply must include a question id").
Proof.
  intros Hreq Hbody Hbefore Hentry Hobj.
  rewrite (validate_reaches_entries _ req _ Hreq Hbody eq_refl). simpl.
  rewrite check_entries_skips by assumption.
  destruct entry as [| | b | n | s | items | o]; try discriminate;
    try reflexivity.
  now contradiction (Hobj o).
Qed.

Variable addRequestReplies : value -> value -> value -> completion value.

(** X8: unless the validator called [next()], the answer of [POST /:id] is the
    validator's and does not depend on the store's write. *)
Theorem post_rejected_without_write req addRequestReplies' :
  validateRequestReplies getRequestDetailed req <> Normal Next ->
  postReplies getRequestDetailed addRequestReplies req =
    validateRequestReplies getRequestDetailed req /\
  postReplies getRequestDetailed addRequestReplies' req =
    postReplies getRequestDetailed addRequestReplies req.
Proof.
  intros Hgate. unfold postReplies.
  destruct (validateRequestReplies getRequestDetailed req)
    as [[s p | | err] | e]; simpl; try (split; reflexivity). congruence.
Qed.

(** X9: a 200 of [POST /:id] means: the request exists, the batch is an array
    of complete entries, and the payload is the truthy value the store
    returned for the id of the path, the id of the caller's profile and that
    batch. *)
Theorem post_ok_means_written req payload :
  postReplies getRequestDetailed addRequestReplies req =
    Normal (Respond 200 payload) ->
  request_exists getRequestDetailed req /\
  exists entries profile_id,
    submitted req (Arr entries) /\
    Forall (fun e => complete_entry e = true) entries /\
    get_prop (profile req) "id" = Normal profile_id /\
    addRequestReplies (lookup "id" (params req)) profile_id (Arr entries) =
      Normal payload /\
    truthy payload = true.
Proof.
  unfold postReplies, validateRequestReplies, postRepliesHandler,
    postRepliesReads, request_exists, submitted.
  destruct (get_prop (body req) "replies") as [replies |]; simpl;
    [| discriminate].
  destruct (getRequestDetailed (lookup "id" (params req))) as [record |];
    simpl; [| discriminate].
  destruct record as [| | b | n | s | items | record]; simpl;
    try discriminate.
  destruct (truthy (lookup "id" record)) eqn:Hid; simpl; [| discriminate].
  destruct (truthy replies) eqn:Hreplies; simpl; [| discriminate].
  destruct (iterate replies) as [entries |] eqn:Hiter; simpl;
    [| discriminate].
  destruct (check_entries entries) as [[status sent | | err] | e] eqn:Hloop;
    simpl; [| | discriminate | discriminate].
  { apply check_entries_status in Hloop. subst status. discriminate. }
  destruct (get_prop (profile req) "id") as [profile_id |]; simpl;
    [| discriminate].
  destruct (addRequestReplies (lookup "id" (params req)) profile_id replies)
    as [requestInfo |] eqn:Hstore; simpl; [| discriminate].
  destruct (truthy requestInfo) eqn:Hinfo;
    [| unfold internal_error; discriminate].
  intros H. injection H as <-.
  split; [now exists record |].
  destruct replies as [| | b | n | s | items | o]; simpl in Hiter;
    try discriminate; injection Hiter as <-.
  - destruct s; [discriminate Hreplies | discriminate Hloop].
  - exists items, profile_id. repeat split; auto.
    now apply check_entries_next.
Qed.

(** X10: [POST /:id] reads the path, the caller's profile and the [replies] of
    the body and nothing else: two requests that agree on them are answered
    alike, whatever else their bodies carry (a [profile_id], say). *)
Theorem post_reads_only_replies req req' :
  params req' = params req ->
  profile req' = profile req ->
  get_prop (body req') "replies" = get_prop (body req) "replies" ->
  postReplies getRequestDetailed addRequestReplies req' =
    postReplies getRequestDetailed addRequestReplies req.
Proof.
  intros Hparams Hprofile Hbody.
  unfold postReplies, postRepliesHandler, postRepliesReads,
    validateRequestReplies.
  now rewrite Hparams, Hprofile, Hbody.
Qed.

(** X11: after the gate, a request without a profile makes the handler
    throw before it calls the store: the error goes to [next(err)], whatever
    the store would do.  A store whose write is rejected leaves the promise
    rejected with nothing to catch it: the handler sends no answer, and no
    500. *)
Theorem post_failures_after_gate req replies :
  validateRequestReplies getRequestDetailed req = Normal Next ->
  submitted req replies ->
  (nullish (profile req) = true ->
   forall store,
     postReplies getRequestDetailed store req =
       Normal (NextError TypeError)) /\
  (forall profile_id e,
     get_prop (profile req) "id" = Normal profile_id ->
     addRequestReplies (lookup "id" (params req)) profile_id replies =
       Abrupt e ->
     postReplies getRequestDetailed addRequestReplies req = Abrupt e).
Proof.
  intros Hgate Hbody. unfold postReplies. rewrite Hgate. simpl.
  unfold postRepliesHandler, postRepliesReads, submitted in *.
  rewrite Hbody. simpl. split.
  - destruct (profile req); simpl; intros H store; try discriminate;
      reflexivity.
  - intros profile_id e Hprofile Hstore. rewrite Hprofile. simpl.
    now rewrite Hstore.
Qed.

End ValidatorEdges.

(** ** The other read routes *)

Lemma lookup_set_prop_same k v o : lookup k (set_prop k v o) = v.
Proof.
  induction o as [| [k' v'] o IH]; simpl.
  - now rewrite String.eqb_refl.
  - destruct (k' =? k) eqn:Hk; simpl; now rewrite Hk.
Qed.

Lemma lookup_set_prop_other k k' v o :
  k' <> k -> lookup k' (set_prop k v o) = lookup k' o.
Proof.
  intros Hneq. induction o as [| [k0 v0] o IH]; simpl.
  - destruct (String.eqb_spec k k'); [congruence | reflexivity].
  - destruct (String.eqb_spec k0 k) as [-> | Hk0]; simpl.
    + destruct (String.eqb_spec k k'); [congruence | reflexivity].
    + now rewrite IH.
Qed.

Lemma keys_set_prop_present k v o :
  In k (map fst o) -> map fst (set_prop k v o) = map fst o.
Proof.
  induction o as [| [k0 v0] o IH]; simpl; [contradiction |].
  intros Hin. destruct (String.eqb_spec k0 k) as [-> | Hk0]; [reflexivity |].
  simpl. f_equal. apply IH. destruct Hin; [contradiction | assumption].
Qed.

Lemma keys_set_prop_absent k v o :
  ~ In k (map fst o) -> map fst (set_prop k v o) = map fst o ++ [k].
Proof.
  induction o as [| [k0 v0] o IH]; simpl; [reflexivity |].
  intros Hnot. destruct (String.eqb_spec k0 k) as [-> | Hk0]; [tauto |].
  simpl. f_equal. apply IH. tauto.
Qed.

Section ReadRoutes.

Variable getRequestDetailed : value -> completion value.
Variable getMemberRepliedStatus : value -> value -> completion value.

(** X12: for a record with a truthy id, [GET /:id] answers 200 with the record
    and the statuses the store gives for the record's topic: every field of
    the record keeps its value and its place, and [reply_statuses] holds the
    statuses, in place of a field of that name if the record has one and as
    last field otherwise. *)
Theorem getRequest_adds_statuses req record statuses :
  getRequestDetailed (lookup "id" (params req)) = Normal (Obj record) ->
  truthy (lookup "id" record) = true ->
  getMemberRepliedStatus (lookup "id" (params req))
    (lookup "topic_id" record) = Normal statuses ->
  exists payload,
    getRequest getRequestDetailed getMemberRepliedStatus req =
      Respond 200 (Obj payload) /\
    lookup "reply_statuses" payload = statuses /\
    (forall k, k <> "reply_statuses" -> lookup k payload = lookup k record) /\
    (In "reply_statuses" (map fst record) ->
     map fst payload = map fst record) /\
    (~ In "reply_statuses" (map fst record) ->
     map fst payload = map fst record ++ ["reply_statuses"]).
Proof.
  intros Hstore Hid Hstatus.
  exists (set_prop "reply_statuses" statuses record).
  split; [| split; [apply lookup_set_prop_same | split; [| split]]].
  - unfold getRequest. rewrite Hstore. simpl. rewrite Hid, Hstatus.
    reflexivity.
  - intros k Hk. now apply lookup_set_prop_other.
  - apply keys_set_prop_present.
  - apply keys_set_prop_absent.
Qed.

(** X13: [GET /:id] and the validator of [POST /:id] agree on the ids they do
    not know: for a body that can be read, the one answers its 404 exactly
    when the other does. *)
Theorem unknown_request_agreement req replies :
  submitted req replies ->
  getRequest getRequestDetailed getMemberRepliedStatus req = RequestNotFound
  <->
  validateRequestReplies getRequestDetailed req = Normal NotFound.
Proof.
  unfold submitted, getRequest, validateRequestReplies, RequestNotFound,
    NotFound, internal_error.
  intros ->. simpl.
  destruct (getRequestDetailed (lookup "id" (params req))) as [record |];
    simpl; [| split; discriminate].
  destruct (get_prop record "id") as [request_id |] eqn:Hid; simpl;
    [| split; discriminate].
  destruct (truthy request_id) eqn:Htruthy; simpl; [| split; reflexivity].
  split.
  - destruct (get_prop record "topic_id"); simpl; [| discriminate].
    destruct (getMemberRepliedStatus _ _); simpl; discriminate.
  - destruct (truthy replies); simpl; [| discriminate].
    destruct (iterate replies) as [entries |]; simpl; [| discriminate].
    intros H. apply check_entries_status in H. discriminate H.
Qed.


Variable getRequestReplies : value -> completion (list object).
Variable getWhoHasReplied : value -> completion (list value).


End ReadRoutes.

(** ** More on the aggregator *)

Lemma strict_eq_eq a b : strict_eq a b = true -> a = b.
Proof.
  destruct a, b; simpl; try discriminate; intros H; try reflexivity.
  - f_equal. now apply Bool.eqb_prop.
  - f_equal. now apply Z.eqb_eq.
  - f_equal. now apply String.eqb_eq.
Qed.

Lemma replied_by_id curr reply :
  replied_by curr reply = true -> lookup "profile_id" reply = curr.
Proof. apply strict_eq_eq. Qed.

Lemma filter_none {A : Type} (f : A -> bool) (l : list A) :
  (forall x, In x l -> f x = false) -> filter f l = [].
Proof.
  induction l as [| x l IH]; intros H; simpl; [reflexivity |].
  rewrite (H x (or_introl eq_refl)). apply IH. intros y Hy. apply H. now right.
Qed.

(** Among ids without repetition a reply is claimed by one id at most. *)
Lemma one_claimant whoHasReplied :
  NoDup whoHasReplied ->
  forall curr reply,
    In curr whoHasReplied ->
    replied_by curr reply = true ->
    filter (fun c => replied_by c reply) whoHasReplied = [curr].
Proof.
  induction 1 as [| c who Hc Hnodup IH]; intros curr reply Hin Hby;
    [contradiction |].
  simpl. destruct Hin as [-> | Hin].
  - rewrite Hby. f_equal. apply filter_none. intros c' Hc'.
    destruct (replied_by c' reply) eqn:Hby'; [| reflexivity].
    apply replied_by_id in Hby, Hby'. congruence.
  - destruct (replied_by c reply) eqn:Hby'.
    + apply replied_by_id in Hby, Hby'. congruence.
    + now apply IH.
Qed.

Lemma found_of_no_replies whoHasReplied :
  flat_map (fun c => filter (replied_by c) []) whoHasReplied = [].
Proof. induction whoHasReplied; simpl; auto. Qed.

(** One more row goes to the groups of the ids that claim it. *)
Lemma found_with_one_more reply replies whoHasReplied :
  Permutation
    (flat_map (fun c => filter (replied_by c) (reply :: replies))
       whoHasReplied)
    (map (fun _ => reply)
       (filter (fun c => replied_by c reply) whoHasReplied) ++
     flat_map (fun c => filter (replied_by c) replies) whoHasReplied).
Proof.
  induction whoHasReplied as [| c who IH]; simpl; [constructor |].
  destruct (replied_by c reply); simpl.
  - constructor. rewrite IH. apply Permutation_app_swap_app.
  - rewrite IH. apply Permutation_app_swap_app.
Qed.

Lemma all_replies_aggregate replies whoHasReplied :
  all_replies (aggregate replies whoHasReplied) =
    map emitted_reply
      (flat_map (fun c => filter (replied_by c) replies) whoHasReplied).
Proof.
  rewrite aggregate_map. unfold all_replies.
  induction whoHasReplied as [| c who IH]; simpl; [reflexivity |].
  now rewrite map_app, IH.
Qed.

Lemma first_truthy_or_last_in vs :
  vs <> [] -> In (first_truthy_or_last vs) vs.
Proof.
  intros Hvs. unfold first_truthy_or_last.
  destruct (find truthy vs) as [v |] eqn:Hfind.
  - now apply find_some in Hfind.
  - rewrite (app_removelast_last Undefined Hvs) at 2.
    apply in_or_app. right. now left.
Qed.

(** X16: the aggregator over two lists of ids in a row is the two outputs in a
    row. *)
Theorem aggregate_app replies who1 who2 :
  aggregate replies (who1 ++ who2) =
    aggregate replies who1 ++ aggregate replies who2.
Proof. rewrite !aggregate_map. apply map_app. Qed.

(** X17: when no id is listed twice and every row belongs to a listed id, the
    replies of all groups together are the emitted forms of all rows, each
    once: no row is lost and none is shown twice. *)
Theorem listed_replies_emitted_once replies whoHasReplied :
  NoDup whoHasReplied ->
  (forall reply, In reply replies ->
     exists curr, In curr whoHasReplied /\ replied_by curr reply = true) ->
  Permutation (all_replies (aggregate replies whoHasReplied))
    (map emitted_reply replies).
Proof.
  intros Hnodup Hlisted. rewrite all_replies_aggregate.
  apply Permutation_map.
  induction replies as [| reply replies IH].
  - now rewrite found_of_no_replies.
  - rewrite found_with_one_more.
    destruct (Hlisted reply (or_introl eq_refl)) as (curr & Hin & Hby).
    rewrite (one_claimant whoHasReplied Hnodup curr reply Hin Hby). simpl.
    constructor. apply IH. intros r Hr. apply Hlisted. now right.
Qed.

(** X18: when no id is listed twice, the groups together hold as many replies
    as there are rows of listed ids. *)
Theorem emitted_count replies whoHasReplied :
  NoDup whoHasReplied ->
  List.length (all_replies (aggregate replies whoHasReplied)) =
    List.length
      (filter (fun reply => existsb (fun c => replied_by c reply)
                              whoHasReplied) replies).
Proof.
  intros Hnodup. rewrite all_replies_aggregate, List.length_map.
  induction replies as [| reply replies IH].
  - now rewrite found_of_no_replies.
  - rewrite (Permutation_length (found_with_one_more reply replies _)).
    rewrite List.length_app, List.length_map, IH. simpl.
    destruct (existsb (fun c => replied_by c reply) whoHasReplied) eqn:Hex.
    + apply existsb_exists in Hex. destruct Hex as (curr & Hin & Hby).
      now rewrite (one_claimant whoHasReplied Hnodup curr reply Hin Hby).
    + rewrite filter_none; [reflexivity |].
      intros c Hc. destruct (replied_by c reply) eqn:Hby; [| reflexivity].
      rewrite <- Hex. symmetry. apply existsb_exists. now exists c.
Qed.

(** X19: the name and the avatar of the group of a member with a matching row
    are the name of one of the member's rows and the avatar of one of them. *)
Theorem group_identity_from_rows replies whoHasReplied i curr :
  nth_error whoHasReplied i = Some curr ->
  filter (replied_by curr) replies <> [] ->
  exists g,
    nth_error (aggregate replies whoHasReplied) i = Some g /\
    In (group_name g)
      (map (lookup "name") (filter (replied_by curr) replies)) /\
    In (group_avatar g)
      (map (lookup "avatarUrl") (filter (replied_by curr) replies)).
Proof.
  intros Hi Hfound. exists (member_group replies curr).
  rewrite aggregate_map. split; [exact (map_nth_error _ _ _ Hi) |].
  unfold member_group, group, group_name, group_avatar. simpl.
  split; apply first_truthy_or_last_in; intros H; apply map_eq_nil in H;
    contradiction.
Qed.

(** X20: when the rows of a member all carry the same name and the same
    avatar, as rows joined to one profile do, the member's group shows exactly
    them, truthy or not. *)
Theorem group_identity_of_agreeing_rows replies whoHasReplied i curr
  name avatarUrl :
  nth_error whoHasReplied i = Some curr ->
  filter (replied_by curr) replies <> [] ->
  (forall reply, In reply replies -> replied_by curr reply = true ->
     lookup "name" reply = name /\ lookup "avatarUrl" reply = avatarUrl) ->
  nth_error (aggregate replies whoHasReplied) i =
    Some (group curr name avatarUrl
            (map emitted_reply (filter (replied_by curr) replies))).
Proof.
  intros Hi Hfound Hagree. rewrite aggregate_map.
  rewrite (map_nth_error _ _ _ Hi). unfold member_group.
  set (found := filter (replied_by curr) replies) in *.
  assert (Hrows : forall reply, In reply found ->
            lookup "name" reply = name /\ lookup "avatarUrl" reply = avatarUrl).
  { intros reply Hin. apply filter_In in Hin. now apply Hagree. }
  assert (Hname : first_truthy_or_last (map (lookup "name") found) = name).
  { destruct (proj1 (in_map_iff _ _ _)
                (first_truthy_or_last_in (map (lookup "name") found)
                   (fun H => Hfound (map_eq_nil _ _ H))))
      as (reply & <- & Hin).
    now apply Hrows. }
  assert (Havatar :
            first_truthy_or_last (map (lookup "avatarUrl") found) = avatarUrl).
  { destruct (proj1 (in_map_iff _ _ _)
                (first_truthy_or_last_in (map (lookup "avatarUrl") found)
                   (fun H => Hfound (map_eq_nil _ _ H))))
      as (reply & <- & Hin).
    now apply Hrows. }
  now rewrite Hname, Havatar.
Qed.

(** X21: two rows are emitted alike exactly when they agree on id,
    posted_at, iteration_id, question_id, question and content: an emitted
    reply carries these six values of its row, and no other field of the
    row (profile_id, name, avatarUrl or any further column) has a part in
    it. *)
Theorem emitted_reply_six_fields reply reply' :
  emitted_reply reply = emitted_reply reply' <->
  forall k, In k reply_keys -> lookup k reply = lookup k reply'.
Proof.
  unfold emitted_reply, reply_keys. split.
  - intros H k Hin. injection H as Hid Hposted Hiteration Hquestion_id
      Hquestion Hcontent.
    simpl in Hin.
    destruct Hin as [<- | [<- | [<- | [<- | [<- | [<- | []]]]]]]; assumption.
  - intros H.
    rewrite (H "id"), (H "posted_at"), (H "iteration_id"),
      (H "question_id"), (H "question"), (H "content");
      simpl; tauto.
Qed.

(** ** The write route as a whole *)

(** The validator answers with a 404 or a 400 only. *)
Lemma validator_statuses getRequestDetailed req status payload :
  validateRequestReplies getRequestDetailed req =
    Normal (Respond status payload) ->
  status = 404%Z \/ status = 400%Z.
Proof.
  unfold validateRequestReplies.
  destruct (get_prop (body req) "replies") as [replies |]; simpl;
    [| discriminate].
  destruct (getRequestDetailed (lookup "id" (params req))) as [record |];
    simpl; [| discriminate].
  destruct (get_prop record "id") as [request_id |]; simpl; [| discriminate].
  destruct (truthy request_id); simpl;
    [| intros H; injection H as <- _; now left].
  destruct (truthy replies); simpl;
    [| intros H; injection H as <- _; now right].
  destruct (iterate replies) as [entries |]; simpl; [| discriminate].
  intros H. right. now apply check_entries_status in H.
Qed.

Section WriteRoute.

Variable getRequestDetailed : value -> completion value.
Variable addRequestReplies : value -> value -> value -> completion value.

(** X22: against an existing request, a batch made of two batches in a row
    passes the gate exactly when each of the two passes it on its own. *)
Theorem gate_splits req req1 req2 entries1 entries2 :
  request_exists getRequestDetailed req ->
  params req1 = params req ->
  params req2 = params req ->
  submitted req (Arr (entries1 ++ entries2)) ->
  submitted req1 (Arr entries1) ->
  submitted req2 (Arr entries2) ->
  validateRequestReplies getRequestDetailed req = Normal Next <->
  validateRequestReplies getRequestDetailed req1 = Normal Next /\
  validateRequestReplies getRequestDetailed req2 = Normal Next.
Proof.
  intros Hreq Hparams1 Hparams2 Hbody Hbody1 Hbody2.
  assert (Hreq1 : request_exists getRequestDetailed req1).
  { unfold request_exists in *. now rewrite Hparams1. }
  assert (Hreq2 : request_exists getRequestDetailed req2).
  { unfold request_exists in *. now rewrite Hparams2. }
  rewrite (validate_reaches_entries _ req _ Hreq Hbody eq_refl).
  rewrite (validate_reaches_entries _ req1 _ Hreq1 Hbody1 eq_refl).
  rewrite (validate_reaches_entries _ req2 _ Hreq2 Hbody2 eq_refl).
  simpl. split.
  - intros H. apply check_entries_next, Forall_app in H.
    split; apply check_entries_all_complete; tauto.
  - intros [H1 H2]. apply check_entries_all_complete, Forall_app.
    split; now apply check_entries_next.
Qed.

(** X23: a 500 that [POST /:id] sends itself carries the fixed message and
    means that the batch passed the gate, that the caller's profile could
    be read and that the store returned a falsy value for the write; the
    validator never sends a 500, and an error the handler throws is not
    answered by the route but passed to [next(err)]. *)
Theorem post_500_means_store_declined req payload :
  postReplies getRequestDetailed addRequestReplies req =
    Normal (Respond 500 payload) ->
  Respond 500 payload = internal_error /\
  validateRequestReplies getRequestDetailed req = Normal Next /\
  exists replies profile_id requestInfo,
    submitted req replies /\
    get_prop (profile req) "id" = Normal profile_id /\
    addRequestReplies (lookup "id" (params req)) profile_id replies =
      Normal requestInfo /\
    truthy requestInfo = false.
Proof.
  unfold postReplies. intros H.
  destruct (validateRequestReplies getRequestDetailed req)
    as [[status sent | | err] | e] eqn:Hgate; simpl in H;
    [| | discriminate | discriminate].
  - injection H as -> ->. apply validator_statuses in Hgate.
    destruct Hgate; discriminate.
  - unfold postRepliesHandler, postRepliesReads, submitted in *.
    destruct (get_prop (body req) "replies") as [replies |]; simpl in H;
      [| discriminate].
    destruct (get_prop (profile req) "id") as [profile_id |]; simpl in H;
      [| discriminate].
    destruct (addRequestReplies (lookup "id" (params req)) profile_id
                replies) as [requestInfo |] eqn:Hstore; simpl in H;
      [| discriminate].
    destruct (truthy requestInfo) eqn:Hinfo; [discriminate |].
    injection H as <-. split; [reflexivity |]. split; [reflexivity |].
    exists replies, profile_id, requestInfo. repeat split; auto.
Qed.

End WriteRoute.

(** ** The further properties on the sample data *)

Example getQuestions_passes_through :
  getQuestions (fun _ => Normal (Arr [])) (post_with Undefined) =
  Respond 200 (Arr []).
Proof. reflexivity. Qed.

Example getRequest_sample :
  getRequest known_request (statuses_of sample_statuses)
    (post_with Undefined) =
  Respond 200
    (Obj [("id", Num 1); ("topic_id", Num 1);
          ("posted_at", Str "2020-09-28T00:37:22.901Z");
          ("reply_statuses", sample_statuses)]).
Proof. reflexivity. Qed.

Lemma gate_passes_only_complete_batches_witness :
  request_exists known_request (post_of (Arr repeated_batch)) /\
  exists entries,
    submitted (post_of (Arr repeated_batch)) (Arr entries) /\
    Forall (fun e => complete_entry e = true) entries.
Proof.
  apply (gate_passes_only_complete_batches known_request
           (post_of (Arr repeated_batch))).
  reflexivity.
Defined.

Lemma validator_answers_witness :
  In (BadInput "Every reply must include a question id")
    validator_rejections.
Proof.
  apply (validator_answers known_request
           (post_of (Arr (map Obj incomplete_batch))) 400
           (Obj [("error", Str "Every reply must include a question id")])).
  reflexivity.
Defined.

Lemma validate_falsy_replies_witness :
  validateRequestReplies known_request (post_of (Num 0)) =
  Normal (BadInput "Must include replies").
Proof.
  apply (validate_falsy_replies known_request (post_of (Num 0)) (Num 0)).
  - eexists. split; reflexivity.
  - reflexivity.
  - reflexivity.
Defined.

Lemma validate_throws_on_non_iterable_witness :
  validateRequestReplies known_request
    (post_of (Obj (answer 1 "Ate a sandwich"))) = Abrupt TypeError.
Proof.
  apply (validate_throws_on_non_iterable known_request
           (post_of (Obj (answer 1 "Ate a sandwich")))
           (Obj (answer 1 "Ate a sandwich"))).
  - eexists. split; reflexivity.
  - reflexivity.
  - reflexivity.
  - intros items H. discriminate H.
  - intros s H. discriminate H.
Defined.

Lemma validate_string_replies_witness :
  validateRequestReplies known_request (post_of (Str "Ate a sandwich")) =
  Normal (BadInput "Every reply must include a question id").
Proof.
  apply (validate_string_replies known_request
           (post_of (Str "Ate a sandwich")) "Ate a sandwich").
  - eexists. split; reflexivity.
  - reflexivity.
  - intros H. discriminate H.
Defined.

Lemma validate_throws_on_nullish_entry_witness :
  validateRequestReplies known_request
    (post_of (Arr ([Obj (answer 1 "a")] ++ Null :: [Obj []]))) =
  Abrupt TypeError.
Proof.
  apply (validate_throws_on_nullish_entry known_request
           (post_of (Arr ([Obj (answer 1 "a")] ++ Null :: [Obj []])))
           [Obj (answer 1 "a")] Null [Obj []]).
  - eexists. split; reflexivity.
  - reflexivity.
  - repeat constructor.
  - reflexivity.
Defined.

Lemma validate_fieldless_entry_witness :
  validateRequestReplies known_request
    (post_of (Arr ([Obj (answer 1 "a")] ++ Num 2 :: [Null]))) =
  Normal (BadInput "Every reply must include a question id").
Proof.
  apply (validate_fieldless_entry known_request
           (post_of (Arr ([Obj (answer 1 "a")] ++ Num 2 :: [Null])))
           [Obj (answer 1 "a")] (Num 2) [Null]).
  - eexists. split; reflexivity.
  - reflexivity.
  - repeat constructor.
  - reflexivity.
  - intros o H. discriminate H.
Defined.

Lemma post_rejected_without_write_witness :
  postReplies unknown_request store_writes (post_of (Arr repeated_batch)) =
    validateRequestReplies unknown_request (post_of (Arr repeated_batch)) /\
  postReplies unknown_request store_rejects (post_of (Arr repeated_batch)) =
    postReplies unknown_request store_writes (post_of (Arr repeated_batch)).
Proof.
  apply (post_rejected_without_write unknown_request store_writes
           (post_of (Arr repeated_batch)) store_rejects).
  intros H. discriminate H.
Defined.

Lemma post_ok_means_written_witness :
  request_exists known_request (post_of (Arr repeated_batch)) /\
  exists entries profile_id,
    submitted (post_of (Arr repeated_batch)) (Arr entries) /\
    Forall (fun e => complete_entry e = true) entries /\
    get_prop (profile (post_of (Arr repeated_batch))) "id" =
      Normal profile_id /\
    store_writes (lookup "id" (params (post_of (Arr repeated_batch))))
      profile_id (Arr entries) = Normal written_rows /\
    truthy written_rows = true.
Proof.
  apply (post_ok_means_written known_request store_writes
           (post_of (Arr repeated_batch)) written_rows).
  reflexivity.
Defined.

Lemma post_reads_only_replies_witness :
  postReplies known_request store_writes
    (post_naming "someone else" (Arr repeated_batch)) =
  postReplies known_request store_writes (post_of (Arr repeated_batch)).
Proof.
  apply (post_reads_only_replies known_request store_writes
           (post_of (Arr repeated_batch))
           (post_naming "someone else" (Arr repeated_batch)));
    reflexivity.
Defined.

Lemma post_failures_after_gate_witness :
  postReplies known_request store_writes
    (unsigned_post (Arr repeated_batch)) = Normal (NextError TypeError) /\
  postReplies known_request store_rejects (post_of (Arr repeated_batch)) =
    Abrupt (Rejected (Str "connection lost")).
Proof.
  split.
  - apply (proj1 (post_failures_after_gate known_request store_rejects
                    (unsigned_post (Arr repeated_batch))
                    (Arr repeated_batch) eq_refl eq_refl) eq_refl
             store_writes).
  - apply (proj2 (post_failures_after_gate known_request store_rejects
                    (post_of (Arr repeated_batch)) (Arr repeated_batch)
                    eq_refl eq_refl)
             (Str "00ulthapbErVUwVJy4x6")); reflexivity.
Defined.

Lemma getRequest_adds_statuses_witness :
  exists payload,
    getRequest known_request (statuses_of sample_statuses)
      (post_with Undefined) = Respond 200 (Obj payload) /\
    lookup "reply_statuses" payload = sample_statuses /\
    lookup "topic_id" payload = Num 1 /\
    map fst payload = ["id"; "topic_id"; "posted_at"; "reply_statuses"].
Proof.
  destruct (getRequest_adds_statuses known_request
              (statuses_of sample_statuses) (post_with Undefined)
              [("id", Num 1); ("topic_id", Num 1);
               ("posted_at", Str "2020-09-28T00:37:22.901Z")]
              sample_statuses eq_refl eq_refl eq_refl)
    as (payload & Hsent & Hstatuses & Hkept & _ & Hkeys).
  exists payload. split; [exact Hsent |]. split; [exact Hstatuses |].
  split.
  - apply (Hkept "topic_id"). intros H. discriminate H.
  - apply Hkeys. simpl. intros [H | [H | [H | []]]]; discriminate H.
Defined.

Lemma unknown_request_agreement_witness :
  validateRequestReplies unknown_request (post_of (Arr repeated_batch)) =
  Normal NotFound.
Proof.
  apply (proj1 (unknown_request_agreement unknown_request
                  (statuses_of sample_statuses)
                  (post_of (Arr repeated_batch)) (Arr repeated_batch)
                  eq_refl)).
  reflexivity.
Defined.



Lemma listed_replies_emitted_once_witness :
  Permutation
    (all_replies (aggregate [alice_row; bob_row] [Str "B"; Str "A"]))
    (map emitted_reply [alice_row; bob_row]).
Proof.
  apply (listed_replies_emitted_once [alice_row; bob_row]
           [Str "B"; Str "A"]).
  - repeat constructor; simpl; intuition discriminate.
  - intros reply [<- | [<- | []]].
    + exists (Str "A"). split; [right; left |]; reflexivity.
    + exists (Str "B"). split; [left |]; reflexivity.
Defined.

Lemma emitted_count_witness :
  List.length (all_replies (aggregate sample_replies [Str "B"; Str "A"])) =
  2%nat.
Proof.
  apply (emitted_count sample_replies [Str "B"; Str "A"]).
  repeat constructor; simpl; intuition discriminate.
Defined.

Lemma group_identity_from_rows_witness :
  exists g,
    nth_error (aggregate blank_first_replies [Str "A"]) 0 = Some g /\
    In (group_name g)
      (map (lookup "name")
         (filter (replied_by (Str "A")) blank_first_replies)) /\
    In (group_avatar g)
      (map (lookup "avatarUrl")
         (filter (replied_by (Str "A")) blank_first_replies)).
Proof.
  apply (group_identity_from_rows blank_first_replies [Str "A"] 0 (Str "A")).
  - reflexivity.
  - intros H. discriminate H.
Defined.

Lemma group_identity_of_agreeing_rows_witness :
  nth_error (aggregate plain_rows [Str "A"]) 0 =
  Some (group (Str "A") (Str "Alice") Null
          (map emitted_reply (filter (replied_by (Str "A")) plain_rows))).
Proof.
  apply (group_identity_of_agreeing_rows plain_rows [Str "A"] 0 (Str "A")
           (Str "Alice") Null).
  - reflexivity.
  - intros H. discriminate H.
  - intros reply [<- | [<- | []]] _; split; reflexivity.
Defined.

Lemma emitted_reply_six_fields_witness :
  emitted_reply alice_row = emitted_reply anonymous_row.
Proof.
  apply (proj2 (emitted_reply_six_fields alice_row anonymous_row)).
  intros k Hin. simpl in Hin.
  destruct Hin as [<- | [<- | [<- | [<- | [<- | [<- | []]]]]]]; reflexivity.
Defined.

Lemma gate_splits_witness :
  validateRequestReplies known_request
    (post_of (Arr [Obj (answer 1 "Ate a sandwich")])) = Normal Next /\
  validateRequestReplies known_request
    (post_of (Arr [Obj (answer 1 "Making a sandwich")])) = Normal Next.
Proof.
  apply (proj1 (gate_splits known_request
                  (post_of (Arr repeated_batch))
                  (post_of (Arr [Obj (answer 1 "Ate a sandwich")]))
                  (post_of (Arr [Obj (answer 1 "Making a sandwich")]))
                  [Obj (answer 1 "Ate a sandwich")]
                  [Obj (answer 1 "Making a sandwich")]
                  (ex_intro _ _ (conj eq_refl eq_refl))
                  eq_refl eq_refl eq_refl eq_refl eq_refl)).
  reflexivity.
Defined.

Lemma post_500_means_store_declined_witness :
  internal_error = internal_error /\
  validateRequestReplies known_request (post_of (Arr repeated_batch)) =
    Normal Next /\
  exists replies profile_id requestInfo,
    submitted (post_of (Arr repeated_batch)) replies /\
    get_prop (profile (post_of (Arr repeated_batch))) "id" =
      Normal profile_id /\
    store_fails (lookup "id" (params (post_of (Arr repeated_batch))))
      profile_id replies = Normal requestInfo /\
    truthy requestInfo = false.
Proof.
  apply (post_500_means_store_declined known_request store_fails
           (post_of (Arr repeated_batch))
           (Obj [("message", Str "We are sorry, Internal server error.")])).
  reflexivity.
Defined.
